(** * Chat server: session table, identity allocation and wire messages

    A shallow embedding of the Go chat server (package [shared] with the
    wire-message type, and the server's [main] package with
    [AcceptConnection], [ManageConnection] and [NewServer]), followed by
    the properties of the written specification that concern them. *)

From Stdlib Require Import ZArith List Lia.
From stdpp Require Import base numbers strings gmap list pretty.

Local Open Scope string_scope.
Local Open Scope list_scope.

(** ** Go base types *)

(** Go's [error] interface value: [None] is [nil]. *)
Definition error : Type := option string.

(** Go's [int] on the 64-bit platforms the project names (amd64):
    arithmetic wraps around in two's complement. *)
Definition wrap64 (z : Z) : Z := ((z + 2 ^ 63) `mod` 2 ^ 64 - 2 ^ 63)%Z.

(** [strconv.Itoa]: the base-10 text of an [int], with a leading minus
    sign for negative numbers. *)
Definition Itoa (i : Z) : string := pretty i.

(** ** Package shared *)

Module shared.

Definition ENDPOINT : string := "/chatserver".

Definition ACTIONS : gmap string bool :=
  <["connection" := true]>
  (<["join" := true]>
  (<["leave" := true]>
  (<["error" := true]>
  (<["private_message" := true]>
  (<["room_message" := true]>
  (<["rooms" := true]>
  (<["participants" := true]> ∅))))))).

(** Reading a Go map at a key: the zero value ([false]) when the key is
    missing. *)
Definition ACTIONS_at (a : string) : bool := default false (ACTIONS !! a).

Record SystemMessage : Type := {
  Action : string;
  UserId : string;
  Room : string;
  Message : string;
  Rooms : list string;
  Participants : list string
}.

(** The zero value of the struct ([var Msg shared.SystemMessage]). *)
Definition zero : SystemMessage :=
  {| Action := ""; UserId := ""; Room := ""; Message := "";
     Rooms := []; Participants := [] |}.

(** JSON values that occur in a [SystemMessage] on the wire. *)
Inductive JSON : Type :=
| JString (s : string)
| JStrings (l : list string).

(** A field tagged [omitempty] is left out when it holds the empty
    string, or a slice of length zero. *)
Definition omitempty_string (key s : string) : list (string * JSON) :=
  if decide (s = "") then [] else [(key, JString s)].

Definition omitempty_strings (key : string) (l : list string)
  : list (string * JSON) :=
  match l with
  | [] => []
  | _ :: _ => [(key, JStrings l)]
  end.

(** The JSON object [encoding/json] writes for a [SystemMessage], by the
    struct tags, in field order: [action] has no [omitempty]. *)
Definition Marshal (m : SystemMessage) : list (string * JSON) :=
  [("action", JString (Action m))]
  ++ omitempty_string "user_id" (UserId m)
  ++ omitempty_string "room" (Room m)
  ++ omitempty_string "message" (Message m)
  ++ omitempty_strings "rooms" (Rooms m)
  ++ omitempty_strings "participants" (Participants m).

End shared.

(** ** Package main: the server *)

(** A [*websocket.Conn] is known by the number of the handle; the nil
    pointer is [None] in the fields that hold one. *)
Definition Conn : Type := nat.

(** A [chan string]: nil, or an unbuffered channel made by [make]. No
    modelled code sends or receives on one. *)
Inductive Chan : Type := NilChan | MakeChan.

Module UserData.
Record t : Type := {
  Id : string;
  Room : string;
  Connection : option Conn;
  Channel : Chan
}.
Definition zero : t :=
  {| Id := ""; Room := ""; Connection := None; Channel := NilChan |}.
End UserData.

Module RoomData.
Record t : Type := {
  Id : string;
  Channel : Chan;
  Participants : list string
}.
End RoomData.

(** The [Server] struct. The two mutexes and the upgrader hold no data
    of their own: [UsersLock] is what makes each [AcceptConnection] run
    as one step on [NextId] and [Users], and the upgrader's answer is an
    input of the model ([Upgrade] below). *)
Module Server.
Record t : Type := {
  NextId : Z;
  Rooms : gmap string RoomData.t;
  Users : gmap string UserData.t
}.
End Server.

(** What [ConnectionUpgrader.Upgrade(w, r, nil)] answers for a request:
    a connection, or an error (and then a nil connection). *)
Inductive Upgrade : Type :=
| Upgraded (c : Conn)
| UpgradeFailed (err : string).
Arguments Upgraded c%_nat.

(** The two values the call returns, as Go has them: the connection
    pointer (nil on error) and the error (nil on success). *)
Definition Upgrade_values (up : Upgrade) : option Conn * error :=
  match up with
  | Upgraded c => (Some c, None)
  | UpgradeFailed err => (None, Some err)
  end.

Definition AcceptConnection (server : Server.t) (up : Upgrade)
  : Server.t * (string * error) :=
  let Id := Itoa (Server.NextId server) in
  let server :=
    {| Server.NextId := wrap64 (Server.NextId server + 1);
       Server.Rooms := Server.Rooms server;
       Server.Users := Server.Users server |} in
  let Data := {| UserData.Id := Id; UserData.Room := "";
                 UserData.Connection := None;
                 UserData.Channel := MakeChan |} in
  let '(Connection, err) := Upgrade_values up in
  let Data := {| UserData.Id := UserData.Id Data;
                 UserData.Room := UserData.Room Data;
                 UserData.Connection := Connection;
                 UserData.Channel := UserData.Channel Data |} in
  match err with
  | Some _ => (server, (Id, err))
  | None =>
      ({| Server.NextId := Server.NextId server;
          Server.Rooms := Server.Rooms server;
          Server.Users := <[Id := Data]> (Server.Users server) |},
       (Id, None))
  end.

(** What the next [connection.ReadJSON(&Msg)] on a connection meets: the
    read itself fails, or a frame arrives that does not decode into the
    struct (some fields may have been filled), or one that does. *)
Inductive Inbound : Type :=
| TransportFailure (err : string)
| DecodeFailure (partial : shared.SystemMessage) (err : string)
| Frame (m : shared.SystemMessage).

(** [ReadJSON]: the library call fills a zero [SystemMessage], and the
    message and the error are returned together. *)
Definition ReadJSON (connection : Inbound) : shared.SystemMessage * error :=
  let Msg := shared.zero in
  match connection with
  | TransportFailure err => (Msg, Some err)
  | DecodeFailure partial err => (partial, Some err)
  | Frame m => (m, None)
  end.

(** What a handler does to the transport besides the handshake: frames
    it writes to a connection and connections it closes. *)
Inductive Event : Type :=
| EvWriteJSON (c : Conn) (m : shared.SystemMessage)
| EvClose (c : Conn).

(** A call returns, or panics (a method called on a nil pointer). *)
Inductive Outcome (A : Type) : Type :=
| Return (a : A)
| Panic.
Arguments Return {A} a.
Arguments Panic {A}.

(** [defer server.Users[Id].Connection.Close()] reads the map (the zero
    [UserData] for a missing key) when the statement runs and closes the
    connection at return. The read is made after [UsersLock] is given
    back; the model runs the requests one after another. *)
Definition ManageConnection (server : Server.t) (up : Upgrade)
  : Server.t * list Event * Outcome error :=
  let '(server, (Id, err)) := AcceptConnection server up in
  match err with
  | Some e => (server, [], Return (Some e))
  | None =>
      match UserData.Connection
              (default UserData.zero (Server.Users server !! Id)) with
      | Some c => (server, [EvClose c], Return None)
      | None => (server, [], Panic)
      end
  end.

(** [NewServer]: both maps are made empty and [NextId] has [int]'s zero
    value; the handler registered at [shared.ENDPOINT] runs
    [ManageConnection] on this one server for every request. *)
Definition NewServer : Server.t :=
  {| Server.NextId := 0; Server.Rooms := ∅; Server.Users := ∅ |}.

(** ** A process lifetime

    The requests that reach the endpoint, in the order in which their
    handlers take [UsersLock]: each one is a call of [AcceptConnection]
    (inside [ManageConnection]) on the server the previous one left. *)

(** The result of each [AcceptConnection], request by request. *)
Fixpoint Connects (server : Server.t) (ups : list Upgrade)
  : Server.t * list (string * error) :=
  match ups with
  | [] => (server, [])
  | up :: ups =>
      let '(server, r) := AcceptConnection server up in
      let '(server, rs) := Connects server ups in
      (server, r :: rs)
  end.

(** The identities handed out over a lifetime, in order. *)
Definition identities (ups : list Upgrade) : list string :=
  (Connects NewServer ups).2.*1.

(** The identity the [k]-th request of a lifetime is given, counting
    from zero: the text of a counter that went up by one [k] times. *)
Definition identity_at (k : nat) : string := Itoa (wrap64 (Z.of_nat k)).

(** The entry [AcceptConnection] stores for a connection. *)
Definition session (Id : string) (c : Conn) : UserData.t :=
  {| UserData.Id := Id; UserData.Room := "";
     UserData.Connection := Some c; UserData.Channel := MakeChan |}.

(** The handler [NewServer] registers: it runs [ManageConnection] and
    drops what it returns (a panic ends the request, not the process). *)
Definition handler (server : Server.t) (up : Upgrade) : Server.t :=
  (ManageConnection server up).1.1.

(** The server after a lifetime of requests. *)
Definition Serve (ups : list Upgrade) : Server.t :=
  foldl handler NewServer ups.

(** The session identities registered in the Session Table. *)
Definition registered (server : Server.t) : gset string :=
  dom (Server.Users server).

(** Invariant 3 of the data model: every room of the registry has a
    member. *)
Definition rooms_nonempty (server : Server.t) : Prop :=
  ∀ (id : string) (room : RoomData.t),
    Server.Rooms server !! id = Some room → RoomData.Participants room ≠ [].

Definition is_Upgraded (up : Upgrade) : Prop :=
  match up with Upgraded _ => True | UpgradeFailed _ => False end.

(** ** The message router

    The server source stops at the connection: nothing in it reads a
    frame or routes an action. The two operations below are taken from
    the written specification, over the server's own [Server.t],
    [UserData.t] and [RoomData.t]. *)

Module router.

(** Modelled from the spec: what one routed action produces, the server
    source having no router: frames for the originating session ("to the
    requester"), frames pushed to other sessions, the registries
    afterwards, and whether the originating session stays connected. *)
Record Routed : Type := {
  replies : list shared.SystemMessage;
  deliveries : list (string * shared.SystemMessage);
  server_after : Server.t;
  connected : bool
}.

(** Modelled from the spec: the error-action message with a
    human-readable text, which no server code builds. *)
Definition error_message (text : string) : shared.SystemMessage :=
  {| shared.Action := "error"; shared.UserId := ""; shared.Room := "";
     shared.Message := text; shared.Rooms := []; shared.Participants := [] |}.

(** Modelled from the spec: the frame of a broadcast, as scenario C
    shows it (room and message set); no server code builds it. *)
Definition room_message (room body : string) : shared.SystemMessage :=
  {| shared.Action := "room_message"; shared.UserId := "";
     shared.Room := room; shared.Message := body;
     shared.Rooms := []; shared.Participants := [] |}.

(** Modelled from the spec: the session's current room reference, which
    no server code reads. It is the [Room] field of the session's entry;
    the empty string (the field's zero value, and what the entry of a
    missing session reads as) is "no room". *)
Definition current_room (server : Server.t) (session : string) : string :=
  UserData.Room (default UserData.zero (Server.Users server !! session)).

(** Modelled from the spec: the member set of a room, which no server
    code reads. It is the [Participants] of the room's entry; a room
    that does not exist has no member. *)
Definition members (server : Server.t) (room : string) : list string :=
  match Server.Rooms server !! room with
  | Some r => RoomData.Participants r
  | None => []
  end.

(** Modelled from the spec: the router's RoomMessage(sender, body), of
    which the server source has no implementation. "If sender has no
    current room, responds with a not-in-room error. Otherwise fans body
    out to every other member of the sender's room (sender excluded from
    receiving its own broadcast back) and confirms to the sender which
    room and body were broadcast." *)
Definition RoomMessage (server : Server.t) (sender body : string) : Routed :=
  let room := current_room server sender in
  if decide (room = "") then
    {| replies := [error_message "user is not in a room"];
       deliveries := [];
       server_after := server;
       connected := true |}
  else
    {| replies := [room_message room body];
       deliveries :=
         (λ member, (member, room_message room body))
           <$> filter (λ member, member ≠ sender) (members server room);
       server_after := server;
       connected := true |}.

(** Modelled from the spec: whether a failed read is a transport-level
    failure (the peer is gone) and not a decode failure; the server
    source does not look at the error. *)
Definition is_transport (next : Inbound) : bool :=
  match next with TransportFailure _ => true | _ => false end.

Section dispatch.

(** The operations for the recognised actions, and the Disconnect
    cleanup, which this step hands over to. *)
Variable route : Server.t → string → shared.SystemMessage → Routed.
Variable disconnect : Server.t → string → Routed.

(** Modelled from the spec: one step of a session's inbound loop, which
    the server source does not have. "Codec decodes each inbound frame
    into a tagged action, router dispatches on the action"; "decode
    failure or unrecognized action value: the offending message is
    dropped and the session is informed without being disconnected";
    "transport-level failures trigger the Disconnect cleanup path". *)
Definition HandleInbound (server : Server.t) (session : string)
    (next : Inbound) : Routed :=
  let '(Msg, err) := ReadJSON next in
  match err with
  | Some text =>
      if is_transport next then disconnect server session
      else
        {| replies := [error_message text];
           deliveries := [];
           server_after := server;
           connected := true |}
  | None =>
      if shared.ACTIONS_at (shared.Action Msg) then route server session Msg
      else
        {| replies :=
             [error_message ("unrecognized action " +:+ shared.Action Msg)];
           deliveries := [];
           server_after := server;
           connected := true |}
  end.

End dispatch.

(** Modelled from the spec: the frames of the malformed-action error,
    which no server code tells apart: "decode failure or unrecognized
    action value", the recognized values being those at which
    [shared.ACTIONS] of the source reads true. *)
Definition malformed (next : Inbound) : Prop :=
  match next with
  | TransportFailure _ => False
  | DecodeFailure _ _ => True
  | Frame m => shared.ACTIONS_at (shared.Action m) = false
  end.

End router.

(** ** The vocabulary of the written specification

    The action values and the field names as the specification's table
    of the wire message lists them, to compare the code's with. *)
Definition action_values : list string :=
  ["connection"; "join"; "leave"; "error"; "private_message";
   "room_message"; "rooms"; "participants"].

Definition field_names : list string :=
  ["action"; "user_id"; "room"; "message"; "rooms"; "participants"].

(** A server of the specification's scenario C: sessions "0" and "1",
    both in room "lobby". *)
Definition lobby_server : Server.t :=
  {| Server.NextId := 2;
     Server.Rooms :=
       {["lobby" := {| RoomData.Id := "lobby"; RoomData.Channel := MakeChan;
                       RoomData.Participants := ["0"; "1"] |}]};
     Server.Users :=
       <["0" := {| UserData.Id := "0"; UserData.Room := "lobby";
                   UserData.Connection := Some 10%nat;
                   UserData.Channel := MakeChan |}]>
       {["1" := {| UserData.Id := "1"; UserData.Room := "lobby";
                   UserData.Connection := Some 11%nat;
                   UserData.Channel := MakeChan |}]} |}.

(** ** The transport over a lifetime *)

(** The connections the upgrades of a lifetime produce, in order. *)
Definition connections (ups : list Upgrade) : list Conn :=
  omap (λ up, (Upgrade_values up).1) ups.


(** * Properties *)

Example Itoa_samples :
  Itoa 0 = "0" /\ Itoa 10 = "10" /\ Itoa (-7) = "-7"
  /\ Itoa (wrap64 (2 ^ 63 - 1 + 1)) = "-9223372036854775808".
Proof. vm_compute. repeat split. Qed.

(** ** Machine integers and their decimal text *)

Lemma wrap64_in_range (z : Z) :
  (- 2 ^ 63 ≤ z < 2 ^ 63)%Z → wrap64 z = z.
Proof.
  intros Hz. unfold wrap64.
  rewrite Z.mod_small by lia. lia.
Qed.

Lemma wrap64_succ (z : Z) : wrap64 (wrap64 z + 1) = wrap64 (z + 1).
Proof.
  unfold wrap64.
  replace ((z + 2 ^ 63) `mod` 2 ^ 64 - 2 ^ 63 + 1 + 2 ^ 63)%Z
    with ((z + 2 ^ 63) `mod` 2 ^ 64 + 1)%Z by lia.
  replace (z + 1 + 2 ^ 63)%Z with ((z + 2 ^ 63) + 1)%Z by lia.
  rewrite Zplus_mod_idemp_l. reflexivity.
Qed.

(** Below [2 ^ 64] the counter has not yet come back to a value it had. *)
Lemma wrap64_inj (a b : Z) :
  (0 ≤ a < 2 ^ 64)%Z → (0 ≤ b < 2 ^ 64)%Z → wrap64 a = wrap64 b → a = b.
Proof.
  intros Ha Hb. unfold wrap64. intros Heq.
  assert (Hab : ((a + 2 ^ 63) `mod` 2 ^ 64 = (b + 2 ^ 63) `mod` 2 ^ 64)%Z)
    by lia.
  clear Heq.
  destruct (decide (a < 2 ^ 63)%Z) as [Ha'|Ha'];
    destruct (decide (b < 2 ^ 63)%Z) as [Hb'|Hb'].
  - rewrite !Z.mod_small in Hab by lia. lia.
  - rewrite (Z.mod_small (a + 2 ^ 63)) in Hab by lia.
    replace (b + 2 ^ 63)%Z with ((b - 2 ^ 63) + 1 * 2 ^ 64)%Z in Hab by lia.
    rewrite Z_mod_plus_full, Z.mod_small in Hab by lia. lia.
  - rewrite (Z.mod_small (b + 2 ^ 63)) in Hab by lia.
    replace (a + 2 ^ 63)%Z with ((a - 2 ^ 63) + 1 * 2 ^ 64)%Z in Hab by lia.
    rewrite Z_mod_plus_full, Z.mod_small in Hab by lia. lia.
  - replace (a + 2 ^ 63)%Z with ((a - 2 ^ 63) + 1 * 2 ^ 64)%Z in Hab by lia.
    replace (b + 2 ^ 63)%Z with ((b - 2 ^ 63) + 1 * 2 ^ 64)%Z in Hab by lia.
    rewrite !Z_mod_plus_full, !Z.mod_small in Hab by lia. lia.
Qed.

Lemma Itoa_inj (a b : Z) : Itoa a = Itoa b → a = b.
Proof. unfold Itoa. apply (inj pretty). Qed.

Lemma identity_at_small (k : nat) :
  (Z.of_nat k < 2 ^ 63)%Z → identity_at k = Itoa (Z.of_nat k).
Proof.
  intros Hk. unfold identity_at. rewrite wrap64_in_range by lia. reflexivity.
Qed.

Lemma identity_at_inj (j k : nat) :
  (Z.of_nat j < 2 ^ 64)%Z → (Z.of_nat k < 2 ^ 64)%Z →
  identity_at j = identity_at k → j = k.
Proof.
  intros Hj Hk Heq. apply Itoa_inj, wrap64_inj in Heq; lia.
Qed.

(** ** One connection *)

Lemma AcceptConnection_Id (server : Server.t) (up : Upgrade) :
  (AcceptConnection server up).2.1 = Itoa (Server.NextId server).
Proof. destruct up; reflexivity. Qed.

Lemma AcceptConnection_NextId (server : Server.t) (up : Upgrade) :
  Server.NextId (AcceptConnection server up).1
  = wrap64 (Server.NextId server + 1).
Proof. destruct up; reflexivity. Qed.

Lemma AcceptConnection_Rooms (server : Server.t) (up : Upgrade) :
  Server.Rooms (AcceptConnection server up).1 = Server.Rooms server.
Proof. destruct up; reflexivity. Qed.

Lemma AcceptConnection_registered (server : Server.t) (up : Upgrade) :
  registered (AcceptConnection server up).1
  = match up with
    | Upgraded _ => {[Itoa (Server.NextId server)]} ∪ registered server
    | UpgradeFailed _ => registered server
    end.
Proof.
  destruct up; unfold registered; simpl; [|reflexivity].
  apply dom_insert_L.
Qed.

(** [ManageConnection] leaves the server as [AcceptConnection] made it. *)
Lemma handler_AcceptConnection (server : Server.t) (up : Upgrade) :
  handler server up = (AcceptConnection server up).1.
Proof.
  unfold handler, ManageConnection.
  destruct up as [c|err]; simpl; [|reflexivity].
  rewrite lookup_insert_eq. reflexivity.
Qed.

(** ** A lifetime of connections *)

Lemma Connects_snoc (ups : list Upgrade) (up : Upgrade) (server : Server.t) :
  Connects server (ups ++ [up])
  = ((AcceptConnection (Connects server ups).1 up).1,
     (Connects server ups).2 ++ [(AcceptConnection (Connects server ups).1 up).2]).
Proof.
  revert server. induction ups as [|u ups IH]; intros server; simpl.
  - destruct (AcceptConnection server up); reflexivity.
  - destruct (AcceptConnection server u) as [s r]. rewrite IH.
    destruct (Connects s ups) as [s' rs]. reflexivity.
Qed.

Lemma Connects_Serve (ups : list Upgrade) :
  (Connects NewServer ups).1 = Serve ups.
Proof.
  unfold Serve. induction ups as [|up ups IH] using rev_ind; [reflexivity|].
  rewrite Connects_snoc, foldl_app. simpl.
  rewrite handler_AcceptConnection, IH. reflexivity.
Qed.

Lemma Serve_snoc (ups : list Upgrade) (up : Upgrade) :
  Serve (ups ++ [up]) = (AcceptConnection (Serve ups) up).1.
Proof.
  unfold Serve. rewrite foldl_app. simpl. apply handler_AcceptConnection.
Qed.

Lemma Serve_NextId (ups : list Upgrade) :
  Server.NextId (Serve ups) = wrap64 (Z.of_nat (length ups)).
Proof.
  induction ups as [|up ups IH] using rev_ind; [reflexivity|].
  rewrite Serve_snoc, AcceptConnection_NextId, IH, wrap64_succ.
  rewrite length_app. simpl. f_equal. lia.
Qed.

Lemma identities_snoc (ups : list Upgrade) (up : Upgrade) :
  identities (ups ++ [up]) = identities ups ++ [identity_at (length ups)].
Proof.
  unfold identities. rewrite Connects_snoc. simpl.
  rewrite fmap_app. simpl.
  rewrite AcceptConnection_Id, Connects_Serve, Serve_NextId. reflexivity.
Qed.

Lemma identities_eq (ups : list Upgrade) :
  identities ups = identity_at <$> seq 0 (length ups).
Proof.
  induction ups as [|up ups IH] using rev_ind; [reflexivity|].
  rewrite identities_snoc, IH, length_app. simpl.
  rewrite Nat.add_1_r, seq_S, fmap_app. reflexivity.
Qed.

Lemma identities_lookup (ups : list Upgrade) (k : nat) :
  k < length ups → identities ups !! k = Some (identity_at k).
Proof.
  intros Hk. rewrite identities_eq, list_lookup_fmap.
  rewrite lookup_seq_lt by lia. reflexivity.
Qed.

Lemma registered_Serve (ups : list Upgrade) (id : string) :
  id ∈ registered (Serve ups)
  ↔ ∃ (k : nat) (c : Conn), ups !! k = Some (Upgraded c) ∧ id = identity_at k.
Proof.
  revert id. induction ups as [|up ups IH] using rev_ind; intros id.
  - unfold Serve, registered. simpl. rewrite dom_empty_L. split.
    + intros H. set_solver.
    + intros (k & c & Hk & _). rewrite lookup_nil in Hk. discriminate.
  - rewrite Serve_snoc, AcceptConnection_registered, Serve_NextId.
    fold (identity_at (length ups)).
    split.
    + intros Hin.
      assert (Hcase : (∃ c, up = Upgraded c ∧ id = identity_at (length ups))
                      ∨ id ∈ registered (Serve ups)).
      { destruct up as [c|err]; [|by right].
        apply elem_of_union in Hin as [Hin|Hin]; [|by right].
        left. exists c. split; [reflexivity|]. set_solver. }
      destruct Hcase as [(c & -> & ->)|Hold].
      * exists (length ups), c. split; [|reflexivity].
        rewrite lookup_app_r by lia. rewrite Nat.sub_diag. reflexivity.
      * apply IH in Hold as (k & c & Hk & ->).
        exists k, c. split; [|reflexivity].
        rewrite lookup_app_l; [assumption|]. eapply lookup_lt_Some; eassumption.
    + intros (k & c & Hk & ->).
      destruct (decide (k < length ups)) as [Hlt|Hge].
      * rewrite lookup_app_l in Hk by lia.
        assert (Hold : identity_at k ∈ registered (Serve ups))
          by (apply IH; eauto).
        destruct up; [apply elem_of_union_r|]; exact Hold.
      * apply lookup_lt_Some in Hk as Hlen. rewrite length_app in Hlen.
        simpl in Hlen. assert (k = length ups) as -> by lia.
        rewrite lookup_app_r in Hk by lia. rewrite Nat.sub_diag in Hk.
        simpl in Hk. injection Hk as ->.
        apply elem_of_union_l, elem_of_singleton. reflexivity.
Qed.

Lemma AcceptConnection_Users (server : Server.t) (up : Upgrade) :
  Server.Users (AcceptConnection server up).1
  = match up with
    | Upgraded c =>
        <[Itoa (Server.NextId server)
          := session (Itoa (Server.NextId server)) c]> (Server.Users server)
    | UpgradeFailed _ => Server.Users server
    end.
Proof. destruct up; reflexivity. Qed.

(** While the counter has not wrapped all the way round, the entry of a
    connection stays what [AcceptConnection] stored. *)
Lemma Users_Serve (ups : list Upgrade) (k : nat) (c : Conn) :
  (Z.of_nat (length ups) ≤ 2 ^ 64)%Z →
  ups !! k = Some (Upgraded c) →
  Server.Users (Serve ups) !! identity_at k = Some (session (identity_at k) c).
Proof.
  revert k c. induction ups as [|up ups IH] using rev_ind; intros k c Hlen Hk.
  - rewrite lookup_nil in Hk. discriminate.
  - rewrite length_app in Hlen. simpl in Hlen.
    rewrite Serve_snoc, AcceptConnection_Users, Serve_NextId.
    fold (identity_at (length ups)).
    destruct (decide (k < length ups)) as [Hlt|Hge].
    + rewrite lookup_app_l in Hk by lia.
      assert (Hne : identity_at (length ups) ≠ identity_at k).
      { intros Heq. apply identity_at_inj in Heq; lia. }
      destruct up as [c'|err].
      * rewrite lookup_insert_ne by exact Hne. apply IH; [lia|exact Hk].
      * apply IH; [lia|exact Hk].
    + apply lookup_lt_Some in Hk as Hlen'. rewrite length_app in Hlen'.
      simpl in Hlen'. assert (k = length ups) as -> by lia.
      rewrite lookup_app_r in Hk by lia. rewrite Nat.sub_diag in Hk.
      simpl in Hk. injection Hk as ->. apply lookup_insert_eq.
Qed.

Lemma Serve_Rooms (ups : list Upgrade) : Server.Rooms (Serve ups) = ∅.
Proof.
  induction ups as [|up ups IH] using rev_ind; [reflexivity|].
  rewrite Serve_snoc, AcceptConnection_Rooms. exact IH.
Qed.

Lemma ManageConnection_events (server : Server.t) (up : Upgrade) :
  (ManageConnection server up).1.2
  = match up with Upgraded c => [EvClose c] | UpgradeFailed _ => [] end.
Proof.
  unfold ManageConnection. destruct up as [c|err]; simpl; [|reflexivity].
  rewrite lookup_insert_eq. reflexivity.
Qed.

Lemma ManageConnection_returns (server : Server.t) (up : Upgrade) :
  (ManageConnection server up).2
  = Return match up with Upgraded _ => None | UpgradeFailed err => Some err end.
Proof.
  unfold ManageConnection. destruct up as [c|err]; simpl; [|reflexivity].
  rewrite lookup_insert_eq. reflexivity.
Qed.

(** ** Session identities *)

(** C1: in a lifetime in which every Connect succeeds, the connection
    number [k] (counting from zero, so the n-th is [k = n - 1]) is given
    the identity whose decimal text is [k]: the first gets "0", each next
    one more; that identity is the text of [NextId] as the connection
    finds it, and the sessions registered are exactly those identities.
    The counter is an [int]: the statement is for lifetimes of at most
    [2 ^ 63] connections, before it leaves the non-negative range. *)
Theorem nth_connection_identity (ups : list Upgrade) :
  Forall is_Upgraded ups →
  (Z.of_nat (length ups) ≤ 2 ^ 63)%Z →
  identities ups = (λ k : nat, Itoa (Z.of_nat k)) <$> seq 0 (length ups)
  ∧ (∀ (k : nat) (up : Upgrade), ups !! k = Some up →
       Server.NextId (Serve (take k ups)) = Z.of_nat k
       ∧ (AcceptConnection (Serve (take k ups)) up).2
         = (Itoa (Z.of_nat k), None))
  ∧ registered (Serve ups) = list_to_set (identities ups).
Proof.
  intros Hok Hlen. split; [|split].
  - rewrite identities_eq. apply list_eq. intros k.
    rewrite !list_lookup_fmap.
    destruct (decide (k < length ups)) as [Hlt|Hge].
    + rewrite lookup_seq_lt by lia. simpl.
      rewrite identity_at_small by lia. reflexivity.
    + rewrite lookup_seq_ge by lia. reflexivity.
  - intros k up Hup. apply lookup_lt_Some in Hup as Hk.
    assert (Hn : Server.NextId (Serve (take k ups)) = Z.of_nat k).
    { rewrite Serve_NextId, length_take, Nat.min_l by lia.
      apply wrap64_in_range. lia. }
    split; [exact Hn|].
    rewrite Forall_lookup in Hok. specialize (Hok k up Hup).
    destruct up as [c|err]; [|destruct Hok].
    simpl. rewrite Hn. reflexivity.
  - apply set_eq. intros id.
    rewrite registered_Serve, elem_of_list_to_set, identities_eq.
    rewrite list_elem_of_fmap. split.
    + intros (k & c & Hk & ->). exists k. split; [reflexivity|].
      apply elem_of_seq. apply lookup_lt_Some in Hk. lia.
    + intros (k & -> & Hk). apply elem_of_seq in Hk.
      destruct (lookup_lt_is_Some_2 ups k) as [up Hup]; [lia|].
      rewrite Forall_lookup in Hok. pose proof (Hok k up Hup) as Hu.
      destruct up as [c|err]; [|destruct Hu].
      exists k, c. split; [exact Hup|reflexivity].
Qed.

Lemma nth_connection_identity_witness :
  Forall is_Upgraded [Upgraded 10; Upgraded 11; Upgraded 12]
  ∧ (Z.of_nat (length [Upgraded 10; Upgraded 11; Upgraded 12]) ≤ 2 ^ 63)%Z
  ∧ identities [Upgraded 10; Upgraded 11; Upgraded 12] = ["0"; "1"; "2"].
Proof.
  assert (Hok : Forall is_Upgraded [Upgraded 10; Upgraded 11; Upgraded 12])
    by (repeat constructor).
  assert (Hlen : (Z.of_nat (length [Upgraded 10; Upgraded 11; Upgraded 12])
                  ≤ 2 ^ 63)%Z) by (simpl; lia).
  split; [exact Hok|split; [exact Hlen|]].
  exact (proj1 (nth_connection_identity _ Hok Hlen)).
Defined.

(** C5: two different Connect operations of one lifetime are given
    different identities, and every Connect, failed or not, moves
    [NextId] up by one ([int] addition). The counter is an [int]: the
    statement is for lifetimes of at most [2 ^ 64] connections, after
    which it has gone through every value. *)
Theorem identity_never_reused (ups : list Upgrade) (i j : nat) (a b : string) :
  (Z.of_nat (length ups) ≤ 2 ^ 64)%Z →
  i ≠ j →
  identities ups !! i = Some a →
  identities ups !! j = Some b →
  a ≠ b
  ∧ (∀ (server : Server.t) (up : Upgrade),
       Server.NextId (AcceptConnection server up).1
       = wrap64 (Server.NextId server + 1)).
Proof.
  intros Hlen Hij Ha Hb. split; [|apply AcceptConnection_NextId].
  apply lookup_lt_Some in Ha as Hi. apply lookup_lt_Some in Hb as Hj.
  rewrite identities_eq, length_fmap, length_seq in Hi, Hj.
  rewrite identities_lookup in Ha, Hb by lia.
  injection Ha as <-. injection Hb as <-.
  intros Heq. apply identity_at_inj in Heq; lia.
Qed.

Lemma identity_never_reused_witness :
  identities [Upgraded 10; UpgradeFailed "refused"; Upgraded 11] !! 0 = Some "0"
  ∧ identities [Upgraded 10; UpgradeFailed "refused"; Upgraded 11] !! 2 = Some "2"
  ∧ "0" ≠ "2".
Proof.
  assert (Ha : identities [Upgraded 10; UpgradeFailed "refused"; Upgraded 11]
               !! 0 = Some "0") by (vm_compute; reflexivity).
  assert (Hb : identities [Upgraded 10; UpgradeFailed "refused"; Upgraded 11]
               !! 2 = Some "2") by (vm_compute; reflexivity).
  split; [exact Ha|split; [exact Hb|]].
  refine (proj1 (identity_never_reused _ 0 2 "0" "2" _ _ Ha Hb)).
  - simpl. lia.
  - lia.
Defined.

(** C9: a Connect whose handshake fails still takes an identity and
    still moves the counter: the identity it returns with the error is
    the counter's text, the Session Table is left as it was, that
    identity is registered at no time of the lifetime, and a connection
    that succeeds right after it is registered under the next identity,
    so the registered identities have a gap. (Lifetimes of at most
    [2 ^ 64] connections, see C5.) *)
Theorem failed_handshake_consumes_identity
    (ups : list Upgrade) (k : nat) (err : string) :
  (Z.of_nat (length ups) ≤ 2 ^ 64)%Z →
  ups !! k = Some (UpgradeFailed err) →
  (AcceptConnection (Serve (take k ups)) (UpgradeFailed err)).2
  = (identity_at k, Some err)
  ∧ Server.NextId (Serve (take (S k) ups))
    = wrap64 (Server.NextId (Serve (take k ups)) + 1)
  ∧ Server.Users (Serve (take (S k) ups)) = Server.Users (Serve (take k ups))
  ∧ (identity_at k ∉ registered (Serve ups))
  ∧ (∀ c : Conn, ups !! S k = Some (Upgraded c) →
       identity_at (S k) ∈ registered (Serve ups)).
Proof.
  intros Hlen Hk. apply lookup_lt_Some in Hk as Hlt.
  rewrite (take_S_r _ _ _ Hk), Serve_snoc.
  repeat split.
  - simpl. rewrite Serve_NextId, length_take, Nat.min_l by lia. reflexivity.
  - intros Hin. apply registered_Serve in Hin as (j & c & Hj & Heq).
    apply lookup_lt_Some in Hj as Hjlt.
    apply identity_at_inj in Heq; [|lia|lia]. subst j.
    rewrite Hk in Hj. discriminate.
  - intros c Hc. apply registered_Serve. eauto.
Qed.

Lemma failed_handshake_consumes_identity_witness :
  [Upgraded 10; UpgradeFailed "refused"; Upgraded 11] !! 1
  = Some (UpgradeFailed "refused")
  ∧ ("1" ∉ registered (Serve [Upgraded 10; UpgradeFailed "refused"; Upgraded 11]))
  ∧ "2" ∈ registered (Serve [Upgraded 10; UpgradeFailed "refused"; Upgraded 11]).
Proof.
  assert (Hk : [Upgraded 10; UpgradeFailed "refused"; Upgraded 11] !! 1
               = Some (UpgradeFailed "refused")) by reflexivity.
  assert (Hlen : (Z.of_nat (length [Upgraded 10; UpgradeFailed "refused";
                                      Upgraded 11]) ≤ 2 ^ 64)%Z)
    by (simpl; lia).
  pose proof (failed_handshake_consumes_identity _ 1 "refused" Hlen Hk)
    as (_ & _ & _ & Hnot & Hnext).
  split; [exact Hk|split; [exact Hnot|]].
  exact (Hnext 11 eq_refl).
Defined.

(** The same lifetime, run: the session table holds "0" and "2", and the
    counter stands at 3. *)
Example gap_after_failed_handshake :
  identities [Upgraded 10; UpgradeFailed "refused"; Upgraded 11]
  = ["0"; "1"; "2"]
  ∧ registered (Serve [Upgraded 10; UpgradeFailed "refused"; Upgraded 11])
    = {["0"; "2"]}
  ∧ Server.NextId (Serve [Upgraded 10; UpgradeFailed "refused"; Upgraded 11])
    = 3%Z.
Proof.
  split; [vm_compute; reflexivity|split; [|vm_compute; reflexivity]].
  apply set_eq. intros id. rewrite registered_Serve. split.
  - intros (k & c & Hk & ->).
    destruct k as [|[|[|k]]]; simpl in Hk; try discriminate;
      vm_compute identity_at; set_solver.
  - intros Hin. apply elem_of_union in Hin as [Hin|Hin];
      apply elem_of_singleton in Hin as ->.
    + exists 0, 10. split; reflexivity.
    + exists 2, 11. split; reflexivity.
Qed.

(** ** Connect and Disconnect *)

(** C4: a Connect returns an error exactly when the upgrade does (then
    that same error, from [AcceptConnection] and from
    [ManageConnection], which never panics), and when it does, the
    Session Table is the one the call found: no entry is added and the
    set of registered sessions is unchanged. *)
Theorem failed_connect_registers_nothing (server : Server.t) (up : Upgrade) :
  (AcceptConnection server up).2.2
  = match up with Upgraded _ => None | UpgradeFailed err => Some err end
  ∧ (ManageConnection server up).2
    = Return match up with Upgraded _ => None | UpgradeFailed err => Some err end
  ∧ match up with
    | Upgraded _ => True
    | UpgradeFailed _ =>
        Server.Users (AcceptConnection server up).1 = Server.Users server
        ∧ registered (handler server up) = registered server
    end.
Proof.
  split; [destruct up; reflexivity|].
  split; [apply ManageConnection_returns|].
  destruct up as [c|err]; [exact I|].
  split; reflexivity.
Qed.

(** C2 (what the code does): for the first connection of a fresh server,
    with the upgrade giving connection 7, [ManageConnection] registers
    session "0", closes connection 7 and returns nil; and for no server
    and no request does it write a frame to any connection. No
    "connection" message with the identity is sent. *)
Theorem connect_writes_no_connection_message :
  ManageConnection NewServer (Upgraded 7)
  = ({| Server.NextId := 1; Server.Rooms := ∅;
        Server.Users := {["0" := session "0" 7]} |},
     [EvClose 7], Return None)
  ∧ (∀ (server : Server.t) (up : Upgrade) (c : Conn) (m : shared.SystemMessage),
       EvWriteJSON c m ∉ (ManageConnection server up).1.2).
Proof.
  split.
  - unfold ManageConnection. simpl.
    replace (Itoa 0) with "0" by (vm_compute; reflexivity).
    rewrite lookup_insert_eq. simpl.
    rewrite insert_empty. reflexivity.
  - intros server up c m. rewrite ManageConnection_events.
    destruct up as [c'|err].
    + intros Hin. apply list_elem_of_singleton in Hin. discriminate.
    + apply not_elem_of_nil.
Qed.

(** C3 (what the code does): when [ManageConnection] returns for the
    first connection of a fresh server, connection 7 has been closed and
    session "0" is still in the Session Table, holding the closed
    connection; no request ever shrinks the set of registered sessions;
    and (within [2 ^ 64] connections) the entry of every accepted
    connection is there, unchanged, at the end of the lifetime. *)
Theorem closed_session_stays_registered :
  (ManageConnection NewServer (Upgraded 7)).1.2 = [EvClose 7]
  ∧ Server.Users (handler NewServer (Upgraded 7)) !! "0" = Some (session "0" 7)
  ∧ (∀ (server : Server.t) (up : Upgrade),
       registered server ⊆ registered (handler server up))
  ∧ (∀ (ups : list Upgrade) (k : nat) (c : Conn),
       (Z.of_nat (length ups) ≤ 2 ^ 64)%Z →
       ups !! k = Some (Upgraded c) →
       Server.Users (Serve ups) !! identity_at k
       = Some (session (identity_at k) c)).
Proof.
  split; [apply ManageConnection_events|].
  split.
  { rewrite handler_AcceptConnection. simpl.
    replace (Itoa 0) with "0" by (vm_compute; reflexivity).
    apply lookup_insert_eq. }
  split.
  - intros server up.
    rewrite handler_AcceptConnection, AcceptConnection_registered.
    destruct up; [apply union_subseteq_r|reflexivity].
  - intros ups k c. apply Users_Serve.
Qed.

(** ** The Room Registry *)

(** C10: [NewServer] makes [Rooms] empty, the handler of a request
    leaves [Rooms] as it found it, so after any lifetime of requests
    [Rooms] is empty, and every room in it (there is none) has a
    member. *)
Theorem Rooms_always_empty (ups : list Upgrade) :
  Server.Rooms NewServer = ∅
  ∧ (∀ (server : Server.t) (up : Upgrade),
       Server.Rooms (handler server up) = Server.Rooms server)
  ∧ Server.Rooms (Serve ups) = ∅
  ∧ rooms_nonempty (Serve ups).
Proof.
  split; [reflexivity|]. split.
  - intros server up. rewrite handler_AcceptConnection.
    apply AcceptConnection_Rooms.
  - split; [apply Serve_Rooms|].
    intros id room Hroom. rewrite Serve_Rooms, lookup_empty in Hroom.
    discriminate.
Qed.

(** ** The protocol codec *)

Lemma ACTIONS_at_true (a : string) :
  shared.ACTIONS_at a = true ↔ a ∈ action_values.
Proof.
  unfold shared.ACTIONS_at, shared.ACTIONS, action_values.
  repeat (rewrite lookup_insert; case_decide;
          [subst a; simpl; split; [intros _|reflexivity];
           repeat first [apply list_elem_of_here | apply list_elem_of_further]
          |]).
  rewrite lookup_empty. simpl. split; [discriminate|].
  intros Hin. repeat (apply elem_of_cons in Hin as [->|Hin]; [congruence|]).
  apply elem_of_nil in Hin. destruct Hin.
Qed.

Lemma Marshal_fields (m : shared.SystemMessage) :
  (shared.Marshal m).*1 `sublist_of` field_names.
Proof.
  unfold shared.Marshal, shared.omitempty_string, shared.omitempty_strings,
    field_names.
  destruct (decide (shared.UserId m = ""));
    destruct (decide (shared.Room m = ""));
    destruct (decide (shared.Message m = ""));
    destruct (shared.Rooms m); destruct (shared.Participants m); simpl;
    repeat first [apply sublist_nil | apply sublist_skip | apply sublist_cons].
Qed.

Lemma field_names_NoDup : NoDup field_names.
Proof. apply (bool_decide_unpack (NoDup field_names)). vm_compute. exact I. Qed.

(** C8: the action values the codec recognizes (the keys at which
    [ACTIONS] reads true) are exactly the eight of the specification,
    and they are all the keys of [ACTIONS]; the object written for a
    message has only fields among action, user_id, room, message, rooms
    and participants, each at most once and in that order, and its first
    field is always action, with the message's action. *)
Theorem wire_vocabulary :
  (∀ a : string, shared.ACTIONS_at a = true ↔ a ∈ action_values)
  ∧ dom shared.ACTIONS = list_to_set action_values
  ∧ length action_values = 8
  ∧ NoDup action_values
  ∧ (∀ m : shared.SystemMessage,
       (shared.Marshal m).*1 `sublist_of` field_names
       ∧ NoDup (shared.Marshal m).*1
       ∧ head (shared.Marshal m)
         = Some ("action", shared.JString (shared.Action m))).
Proof.
  split; [exact ACTIONS_at_true|].
  split.
  { unfold shared.ACTIONS, action_values.
    rewrite !dom_insert_L, dom_empty_L. simpl. reflexivity. }
  split; [reflexivity|].
  split.
  { apply (bool_decide_unpack (NoDup action_values)). vm_compute. exact I. }
  intros m. split; [apply Marshal_fields|]. split; [|reflexivity].
  exact (sublist_NoDup _ _ field_names_NoDup (Marshal_fields m)).
Qed.

(** ** The message router *)

(** C6: when the sender is in a room, RoomMessage pushes a frame to
    exactly the members of that room other than the sender, each frame a
    room_message with the room and the body, never one to the sender
    itself, and changes no registry. (What the sender gets is the
    confirmation, a reply of the operation and not a delivery.) *)
Theorem broadcast_reaches_others_only (server : Server.t) (sender body : string) :
  router.current_room server sender ≠ "" →
  (∀ member : string,
     member ∈ (router.deliveries (router.RoomMessage server sender body)).*1
     ↔ member ∈ router.members server (router.current_room server sender)
       ∧ member ≠ sender)
  ∧ (∀ (member : string) (m : shared.SystemMessage),
       (member, m) ∈ router.deliveries (router.RoomMessage server sender body) →
       m = router.room_message (router.current_room server sender) body)
  ∧ (sender ∉ (router.deliveries (router.RoomMessage server sender body)).*1)
  ∧ router.server_after (router.RoomMessage server sender body) = server.
Proof.
  intros Hroom. unfold router.RoomMessage.
  destruct (decide (router.current_room server sender = "")) as [He|_];
    [contradiction|]. simpl.
  assert (Hto : ∀ member : string,
    member ∈ ((λ member0 : string,
                (member0,
                 router.room_message (router.current_room server sender) body))
              <$> filter (λ member0 : string, member0 ≠ sender)
                    (router.members server
                       (router.current_room server sender))).*1
    ↔ member ∈ router.members server (router.current_room server sender)
      ∧ member ≠ sender).
  { intros member. rewrite <- list_fmap_compose.
    rewrite list_elem_of_fmap. split.
    - intros (x & -> & Hx). simpl.
      apply list_elem_of_filter in Hx as [Hne Hin]. split; assumption.
    - intros [Hin Hne]. exists member. split; [reflexivity|].
      apply list_elem_of_filter. split; assumption. }
  split; [exact Hto|]. split; [|split; [|reflexivity]].
  - intros member m Hin. apply list_elem_of_fmap in Hin as (x & Heq & _).
    injection Heq as _ ->. reflexivity.
  - intros Hin. apply Hto in Hin as [_ Hne]. apply Hne. reflexivity.
Qed.

Lemma broadcast_reaches_others_only_witness :
  router.current_room lobby_server "0" ≠ ""
  ∧ "1" ∈ (router.deliveries (router.RoomMessage lobby_server "0" "hi")).*1
  ∧ ("0" ∉ (router.deliveries (router.RoomMessage lobby_server "0" "hi")).*1).
Proof.
  assert (Hroom : router.current_room lobby_server "0" ≠ "")
    by (vm_compute; discriminate).
  pose proof (broadcast_reaches_others_only lobby_server "0" "hi" Hroom)
    as (Hto & _ & Hself & _).
  split; [exact Hroom|split; [|exact Hself]].
  apply Hto. split.
  - vm_compute. apply list_elem_of_further, list_elem_of_here.
  - discriminate.
Defined.

(** Scenario C of the specification, run on the model. *)
Example scenario_C :
  router.RoomMessage lobby_server "0" "hi"
  = {| router.replies := [router.room_message "lobby" "hi"];
       router.deliveries := [("1", router.room_message "lobby" "hi")];
       router.server_after := lobby_server;
       router.connected := true |}.
Proof. vm_compute. reflexivity. Qed.

(** C7: a frame that does not decode, or that decodes to an action that
    is not a key of [ACTIONS], is dropped: the registries are left as
    they were, nothing is delivered to any session, the originating
    session gets one message, whose action is "error", and it stays
    connected. *)
Theorem malformed_frame_is_dropped
    (route : Server.t → string → shared.SystemMessage → router.Routed)
    (disconnect : Server.t → string → router.Routed)
    (server : Server.t) (session : string) (next : Inbound) :
  router.malformed next →
  router.server_after (router.HandleInbound route disconnect server session next)
  = server
  ∧ router.deliveries (router.HandleInbound route disconnect server session next)
    = []
  ∧ (∃ reply : shared.SystemMessage,
       router.replies (router.HandleInbound route disconnect server session next)
       = [reply]
       ∧ shared.Action reply = "error")
  ∧ router.connected (router.HandleInbound route disconnect server session next)
    = true.
Proof.
  intros Hbad. unfold router.HandleInbound.
  destruct next as [err|partial err|m]; simpl in *.
  - destruct Hbad.
  - repeat split. eexists. split; reflexivity.
  - rewrite Hbad. repeat split. eexists. split; reflexivity.
Qed.

Lemma malformed_frame_is_dropped_witness :
  router.malformed
    (Frame {| shared.Action := "shout"; shared.UserId := "";
              shared.Room := ""; shared.Message := "hi";
              shared.Rooms := []; shared.Participants := [] |})
  ∧ router.connected
      (router.HandleInbound
         (λ server _ m, {| router.replies := [m]; router.deliveries := [];
                           router.server_after := server;
                           router.connected := true |})
         (λ server _, {| router.replies := []; router.deliveries := [];
                         router.server_after := server;
                         router.connected := false |})
         (Serve [Upgraded 10]) "0"
         (Frame {| shared.Action := "shout"; shared.UserId := "";
                   shared.Room := ""; shared.Message := "hi";
                   shared.Rooms := []; shared.Participants := [] |}))
    = true.
Proof.
  assert (Hbad : router.malformed
    (Frame {| shared.Action := "shout"; shared.UserId := "";
              shared.Room := ""; shared.Message := "hi";
              shared.Rooms := []; shared.Participants := [] |}))
    by (vm_compute; reflexivity).
  split; [exact Hbad|].
  exact (proj2 (proj2 (proj2
    (malformed_frame_is_dropped _ _ (Serve [Upgraded 10]) "0" _ Hbad)))).
Defined.

(** * Further properties of the server code *)

(** ** The Session Table over a lifetime *)

(** Whatever the length of the lifetime, an entry of the table is the
    one some accepted request stored under its own identity. *)
Lemma Users_Serve_inv (ups : list Upgrade) (id : string) (d : UserData.t) :
  Server.Users (Serve ups) !! id = Some d →
  ∃ (k : nat) (c : Conn),
    ups !! k = Some (Upgraded c) ∧ id = identity_at k ∧ d = session id c.
Proof.
  revert id d. induction ups as [|up ups IH] using rev_ind; intros id d Hd.
  - unfold Serve in Hd. simpl in Hd. rewrite lookup_empty in Hd. discriminate.
  - rewrite Serve_snoc, AcceptConnection_Users, Serve_NextId in Hd.
    fold (identity_at (length ups)) in Hd.
    assert (Hold : Server.Users (Serve ups) !! id = Some d →
              ∃ (k : nat) (c : Conn),
                (ups ++ [up]) !! k = Some (Upgraded c)
                ∧ id = identity_at k ∧ d = session id c).
    { intros H. apply IH in H as (k & c & Hk & Hid & Hdd).
      exists k, c. split; [|split; assumption].
      rewrite lookup_app_l; [exact Hk|]. eapply lookup_lt_Some; exact Hk. }
    destruct up as [c|err]; [|exact (Hold Hd)].
    destruct (decide (identity_at (length ups) = id)) as [<-|Hne].
    + rewrite lookup_insert_eq in Hd. injection Hd as <-.
      exists (length ups), c. split; [|split; reflexivity].
      rewrite lookup_app_r by lia. rewrite Nat.sub_diag. reflexivity.
    + rewrite lookup_insert_ne in Hd by exact Hne. exact (Hold Hd).
Qed.

(** X1: at every moment of every lifetime, an entry of the Session
    Table is filed under its own [Id], has no room, holds a made channel
    and the connection (never nil) that the upgrade of some request
    gave, and its key is the identity of that request. *)
Theorem registered_entries_well_formed
    (ups : list Upgrade) (id : string) (d : UserData.t) :
  Server.Users (Serve ups) !! id = Some d →
  UserData.Id d = id
  ∧ UserData.Room d = ""
  ∧ UserData.Channel d = MakeChan
  ∧ ∃ (k : nat) (c : Conn),
      ups !! k = Some (Upgraded c)
      ∧ UserData.Connection d = Some c
      ∧ id = identity_at k.
Proof.
  intros Hd. apply Users_Serve_inv in Hd as (k & c & Hk & Hid & ->).
  repeat split. exists k, c. repeat split; assumption.
Qed.

Lemma registered_entries_well_formed_witness :
  Server.Users (Serve [Upgraded 10; UpgradeFailed "refused"; Upgraded 11])
    !! "2" = Some (session "2" 11)
  ∧ UserData.Id (session "2" 11) = "2".
Proof.
  assert (Hd : Server.Users
                 (Serve [Upgraded 10; UpgradeFailed "refused"; Upgraded 11])
                 !! "2" = Some (session "2" 11))
    by (vm_compute; reflexivity).
  split; [exact Hd|].
  exact (proj1 (registered_entries_well_formed _ _ _ Hd)).
Defined.

Lemma connections_snoc (ups : list Upgrade) (up : Upgrade) :
  connections (ups ++ [up])
  = connections ups
    ++ match up with Upgraded c => [c] | UpgradeFailed _ => [] end.
Proof.
  unfold connections. rewrite omap_app. destruct up; reflexivity.
Qed.

(** X2: the Session Table has one entry for each request whose upgrade
    succeeded: its size is the number of connections made in the
    lifetime, failed requests adding none and returns of the handler
    taking none away. (Lifetimes of at most [2 ^ 64] requests: beyond,
    the counter comes back to identities in use.) *)
Theorem table_size_counts_connections (ups : list Upgrade) :
  (Z.of_nat (length ups) ≤ 2 ^ 64)%Z →
  size (Server.Users (Serve ups)) = length (connections ups).
Proof.
  induction ups as [|up ups IH] using rev_ind; intros Hlen.
  - reflexivity.
  - rewrite length_app in Hlen. simpl in Hlen.
    rewrite Serve_snoc, AcceptConnection_Users, Serve_NextId.
    fold (identity_at (length ups)).
    rewrite connections_snoc, length_app.
    destruct up as [c|err]; simpl.
    + rewrite map_size_insert_None; [rewrite IH by lia; lia|].
      apply not_elem_of_dom. intros Hin.
      apply registered_Serve in Hin as (k & c' & Hk & Heq).
      apply lookup_lt_Some in Hk. apply identity_at_inj in Heq; lia.
    + rewrite IH by lia. lia.
Qed.

Lemma table_size_counts_connections_witness :
  (Z.of_nat (length [Upgraded 10; UpgradeFailed "refused"; Upgraded 11])
   ≤ 2 ^ 64)%Z
  ∧ size (Server.Users
            (Serve [Upgraded 10; UpgradeFailed "refused"; Upgraded 11]))
    = 2.
Proof.
  assert (Hlen : (Z.of_nat (length [Upgraded 10; UpgradeFailed "refused";
                                      Upgraded 11]) ≤ 2 ^ 64)%Z)
    by (simpl; lia).
  split; [exact Hlen|].
  exact (table_size_counts_connections _ Hlen).
Defined.

(** ** What the handlers do to connections *)



(** ** Identities and outcomes *)

(** X4: the identity a request is given depends only on how many
    requests came before it, not on whether their handshakes, or its
    own, succeeded: two lifetimes with the same number of requests hand
    out the same identities. *)
Theorem identities_ignore_outcomes (ups ups' : list Upgrade) :
  length ups = length ups' → identities ups = identities ups'.
Proof.
  intros Hlen. rewrite !identities_eq, Hlen. reflexivity.
Qed.

Lemma identities_ignore_outcomes_witness :
  length [Upgraded 10; UpgradeFailed "refused"; Upgraded 11]
  = length [UpgradeFailed "busy"; UpgradeFailed "busy"; Upgraded 4]
  ∧ identities [Upgraded 10; UpgradeFailed "refused"; Upgraded 11]
    = identities [UpgradeFailed "busy"; UpgradeFailed "busy"; Upgraded 4].
Proof.
  assert (Hlen : length [Upgraded 10; UpgradeFailed "refused"; Upgraded 11]
                 = length [UpgradeFailed "busy"; UpgradeFailed "busy";
                           Upgraded 4]) by reflexivity.
  split; [exact Hlen|].
  exact (identities_ignore_outcomes _ _ Hlen).
Defined.

(** ** The wire encoding *)






(** An object with some fields left out, as it goes on the wire. *)
Example Marshal_sample :
  shared.Marshal
    {| shared.Action := "room_message"; shared.UserId := "";
       shared.Room := "lobby"; shared.Message := "hi";
       shared.Rooms := []; shared.Participants := [] |}
  = [("action", shared.JString "room_message");
     ("room", shared.JString "lobby"); ("message", shared.JString "hi")].
Proof. vm_compute. reflexivity. Qed.

(** ** What a Connect returns and what the table holds *)

Lemma Connects_results (ups : list Upgrade) (k : nat) (up : Upgrade) :
  ups !! k = Some up →
  (Connects NewServer ups).2 !! k
  = Some (identity_at k, (Upgrade_values up).2).
Proof.
  revert k up. induction ups as [|u ups IH] using rev_ind; intros k up Hk.
  - rewrite lookup_nil in Hk. discriminate.
  - rewrite Connects_snoc. simpl.
    assert (Hlen : length (Connects NewServer ups).2 = length ups).
    { pose proof (identities_eq ups) as Hids. unfold identities in Hids.
      apply (f_equal length) in Hids.
      rewrite !length_fmap, length_seq in Hids. exact Hids. }
    destruct (decide (k < length ups)) as [Hlt|Hge].
    + rewrite lookup_app_l in Hk by lia.
      rewrite lookup_app_l by lia. apply IH. exact Hk.
    + apply lookup_lt_Some in Hk as Hk'. rewrite length_app in Hk'.
      simpl in Hk'. assert (k = length ups) as -> by lia.
      rewrite lookup_app_r in Hk by lia. rewrite Nat.sub_diag in Hk.
      simpl in Hk. injection Hk as ->.
      rewrite lookup_app_r by lia. rewrite Hlen, Nat.sub_diag. simpl.
      rewrite Connects_Serve. f_equal.
      unfold identity_at. rewrite <- Serve_NextId.
      destruct up; reflexivity.
Qed.

(** X6: what a Connect returns tells whether the session is in the
    table: the identity returned by a request of the lifetime is
    registered at the end of the lifetime exactly when the request
    returned no error. (Lifetimes of at most [2 ^ 64] requests.) *)
Theorem registered_iff_no_error
    (ups : list Upgrade) (k : nat) (id : string) (err : error) :
  (Z.of_nat (length ups) ≤ 2 ^ 64)%Z →
  (Connects NewServer ups).2 !! k = Some (id, err) →
  id ∈ registered (Serve ups) ↔ err = None.
Proof.
  intros Hlen Hres.
  assert (Hk : k < length ups).
  { apply lookup_lt_Some in Hres.
    pose proof (identities_eq ups) as Hids. unfold identities in Hids.
    apply (f_equal length) in Hids.
    rewrite !length_fmap, length_seq in Hids. lia. }
  destruct (lookup_lt_is_Some_2 ups k Hk) as [up Hup].
  rewrite (Connects_results _ _ _ Hup) in Hres. injection Hres as <- <-.
  rewrite registered_Serve. split.
  - intros (j & c & Hj & Heq). apply lookup_lt_Some in Hj as Hjlt.
    apply identity_at_inj in Heq; [|lia|lia]. subst j.
    rewrite Hup in Hj. injection Hj as ->. reflexivity.
  - intros Herr. destruct up as [c|e]; [|discriminate].
    exists k, c. split; [exact Hup|reflexivity].
Qed.

Lemma registered_iff_no_error_witness :
  (Connects NewServer [Upgraded 10; UpgradeFailed "refused"; Upgraded 11]).2
    !! 1 = Some ("1", Some "refused")
  ∧ ("1" ∈ registered (Serve [Upgraded 10; UpgradeFailed "refused";
                               Upgraded 11])
     ↔ Some "refused" = None).
Proof.
  assert (Hres : (Connects NewServer
                    [Upgraded 10; UpgradeFailed "refused"; Upgraded 11]).2
                 !! 1 = Some ("1", Some "refused"))
    by (vm_compute; reflexivity).
  assert (Hlen : (Z.of_nat (length [Upgraded 10; UpgradeFailed "refused";
                                      Upgraded 11]) ≤ 2 ^ 64)%Z)
    by (simpl; lia).
  split; [exact Hres|].
  exact (registered_iff_no_error _ 1 "1" (Some "refused") Hlen Hres).
Defined.
